(** * Angle arithmetic of maker.js: [src/core/angle.ts]

    The TypeScript module [MakerJs.angle] is a handful of pure functions on
    JavaScript numbers.  Two embeddings of it are given.

    - [Js] and [angle]: the exact model.  A JavaScript number is kept with
      its exact real value and with the sign of its zero, which [Math.atan2]
      observes ([Math.atan2(-0, -1)] is [-PI], [Math.atan2(0, -1)] is [PI]).
      Rounding, overflow and NaN are left out: every operation returns the
      exact result.  The general statements are proved in this model.
    - [Binary64]: the same functions on IEEE double precision numbers, the
      ones the program runs on.  It computes, and is used to evaluate the
      functions at concrete inputs. *)

From Stdlib Require Import Reals Lra Lia ZArith Bool List.
From Stdlib Require Import Floats.

Local Open Scope R_scope.

(** ** JavaScript numbers, exact model *)

Module Js.

(** [Num r] is the number of value [r]; [Num 0] is the positive zero and
    [NegZero] the negative one. *)
Inductive number : Type :=
| NegZero : number
| Num : R -> number.

Definition val (a : number) : R :=
  match a with
  | NegZero => 0
  | Num r => r
  end.

Definition signbit (a : number) : bool :=
  match a with
  | NegZero => true
  | Num r => if Rlt_dec r 0 then true else false
  end.

Definition zero (s : bool) : number := if s then NegZero else Num 0.

(** The number of exact value [r]; when [r] is zero, [s] is its sign. *)
Definition make (s : bool) (r : R) : number :=
  if Req_dec_T r 0 then zero s else Num r.

(** Unary minus flips the sign, also of a zero. *)
Definition neg (a : number) : number :=
  make (negb (signbit a)) (- val a).

(** A zero sum is negative only when both addends are negative zeros. *)
Definition add (a b : number) : number :=
  make (signbit a && signbit b) (val a + val b).

Definition sub (a b : number) : number := add a (neg b).

(** The sign of a product or quotient, also of a zero one, is the
    exclusive or of the signs.  Division by a zero is not modelled: the
    divisors of this module are the constants 360, 180 and [Math.PI]. *)
Definition mul (a b : number) : number :=
  make (xorb (signbit a) (signbit b)) (val a * val b).

Definition div (a b : number) : number :=
  make (xorb (signbit a) (signbit b)) (val a / val b).

(** [<] and [==] compare values; the two zeros are equal. *)
Definition ltb (a b : number) : bool :=
  if Rlt_dec (val a) (val b) then true else false.

Definition eqb (a b : number) : bool :=
  if Req_dec_T (val a) (val b) then true else false.

(** [Math.floor]: the greatest integer not above the argument; a zero
    keeps its sign, and a result in [[0,1)] is the positive zero. *)
Definition Math_floor (a : number) : number :=
  make (signbit a) (IZR (Zfloor (val a))).

Definition Math_PI : number := Num PI.

(** [Math.atan2 (y, x)] as ECMAScript defines it for finite arguments:
    the rows for a zero [y], then the rows for a zero [x], then the
    quadrants. *)
Definition Math_atan2 (y x : number) : number :=
  if Req_dec_T (val y) 0 then
    if signbit x
    then (if signbit y then Num (- PI) else Num PI)
    else zero (signbit y)
  else if Req_dec_T (val x) 0 then
    (if signbit y then Num (- (PI / 2)) else Num (PI / 2))
  else if Rlt_dec 0 (val x) then Num (atan (val y / val x))
  else if signbit y then Num (atan (val y / val x) - PI)
  else Num (atan (val y / val x) + PI).

End Js.

Declare Scope js_scope.
Delimit Scope js_scope with js.
Bind Scope js_scope with Js.number.
Notation "a + b" := (Js.add a b) : js_scope.
Notation "a - b" := (Js.sub a b) : js_scope.
Notation "a * b" := (Js.mul a b) : js_scope.
Notation "a / b" := (Js.div a b) : js_scope.
Notation "- a" := (Js.neg a) : js_scope.
Notation "a <? b" := (Js.ltb a b) (at level 70) : js_scope.
Notation "a =? b" := (Js.eqb a b) (at level 70) : js_scope.

(** ** The module [MakerJs.angle] *)

Module angle.
Import Js.
Local Open Scope js_scope.

(** [IPoint] is an array of two numbers, [p[0]] and [p[1]]. *)
Definition IPoint : Type := (number * number)%type.

(** [IPathLine]: the fields [origin] and [end] of a line. *)
Record IPathLine : Type := mkLine {
  line_origin : IPoint;
  line_end : IPoint
}.

Record IPathArc : Type := mkArc {
  arc_origin : IPoint;
  radius : number;
  startAngle : number;
  endAngle : number
}.

(** Modelled from the spec: [point.subtract] lives in another file of the
    repository; the spec gives it as the component-wise difference
    [a - b]. *)
Definition point_subtract (a b : IPoint) : IPoint :=
  (fst a - fst b, snd a - snd b).

Definition noRevolutions (angleInDegrees : number) : number :=
  let revolutions := Math_floor (angleInDegrees / Num 360) in
  angleInDegrees - (Num 360 * revolutions).

(** [round] lives in another file of the repository and is a parameter
    here. *)
Definition areEqual (round : number -> number) (angle1 angle2 : number)
  : bool :=
  let a1 := noRevolutions (round angle1) in
  let a2 := noRevolutions (round angle2) in
  (a1 =? a2) || (a1 + Num 360 =? a2) || (a1 - Num 360 =? a2).

Definition toRadians (angleInDegrees : number) : number :=
  noRevolutions angleInDegrees * Math_PI / Num 180.

Definition toDegrees (angleInRadians : number) : number :=
  angleInRadians * Num 180 / Math_PI.

Definition ofArcEnd (arc : IPathArc) : number :=
  if endAngle arc <? startAngle arc
  then Num 360 + endAngle arc
  else endAngle arc.

(** [measure.arcAngle] lives in another file of the repository and is a
    parameter here; the default of [ratio], one half, is left to the
    caller. *)
Definition ofArcMiddle (arcAngle : IPathArc -> number)
    (arc : IPathArc) (ratio : number) : number :=
  startAngle arc + arcAngle arc * ratio.

Definition ofPointInRadians (origin pointToFindAngle : IPoint) : number :=
  let d := point_subtract pointToFindAngle origin in
  let x := fst d in
  let y := snd d in
  Math_atan2 (- y) (- x) + Math_PI.

Definition ofPointInDegrees (origin pointToFindAngle : IPoint) : number :=
  toDegrees (ofPointInRadians origin pointToFindAngle).

Definition ofLineInDegrees (line : IPathLine) : number :=
  noRevolutions
    (toDegrees (ofPointInRadians (line_origin line) (line_end line))).

Definition mirror (angleInDegrees : number) (mirrorX mirrorY : bool)
  : number :=
  let angleInDegrees :=
    if mirrorY then Num 360 - angleInDegrees else angleInDegrees in
  let angleInDegrees :=
    if mirrorX
    then (if angleInDegrees <? Num 180 then Num 180 else Num 540)
         - angleInDegrees
    else angleInDegrees in
  angleInDegrees.

End angle.

(** ** The wording of the specification

    Definitions that follow the specification's sentences rather than the
    source, to be compared with the functions above. *)

Module Spec.
Import Js.
Local Open Scope js_scope.

(** The Y-mirror step: [a] becomes [360 - a]. *)
Definition mirrorY_step (a : number) : number := Num 360 - a.

(** The X-mirror step: [a] becomes [180 - a] when [a < 180], else
    [540 - a]. *)
Definition mirrorX_step (a : number) : number :=
  if a <? Num 180 then Num 180 - a else Num 540 - a.

Definition step_if (b : bool) (f : number -> number) (a : number)
  : number :=
  if b then f a else a.

(** Modelled from the spec: [round] lives in another file of the
    repository; the spec gives it as a function that snaps a value to a
    fixed decimal precision.  [round_places p] rounds to [p] decimal
    places, halves upwards. *)
Definition round_places (p : nat) (a : number) : number :=
  make (signbit a) (IZR (Zfloor (val a * 10 ^ p + / 2)) / 10 ^ p).

End Spec.

(** ** Concrete inputs *)

Module Examples.
Import Js angle.

Definition origin_point : IPoint := (Num 0, Num 0).

(** The unit arc from 400 degrees to 0 degrees. *)
Definition arc_400_0 : IPathArc :=
  mkArc origin_point (Num 1) (Num 400) (Num 0).

(** The four unit lines from the origin along the axes. *)
Definition line_east : IPathLine := mkLine origin_point (Num 1, Num 0).
Definition line_north : IPathLine := mkLine origin_point (Num 0, Num 1).
Definition line_west : IPathLine := mkLine origin_point (Num (-1), Num 0).
Definition line_south : IPathLine := mkLine origin_point (Num 0, Num (-1)).

(** The point [(1, -0)]: on the x axis, its ordinate the negative zero. *)
Definition east_negative_zero : IPoint := (Num 1, NegZero).

(** Rounding to seven decimal places. *)
Definition round7 : number -> number := Spec.round_places 7.

End Examples.

(** ** The same functions on double precision numbers *)

Module Binary64.
Local Open Scope float_scope.

Definition Math_PI : float := 0x1.921fb54442d18p+1.

(** [Math.floor] on a double: a number of exponent at least zero is an
    integer already; otherwise the significand is shifted down, and one
    more is taken off a negative number that is not an integer.  Zeros,
    infinities and NaN are returned as they are. *)
Definition Math_floor (a : float) : float :=
  match Prim2SF a with
  | S754_finite s m e =>
      if (0 <=? e)%Z then a
      else
        let q := Z.shiftr (Zpos m) (- e) in
        let exact := (Z.shiftl q (- e) =? Zpos m)%Z in
        let n := if s && negb exact then (q + 1)%Z else q in
        let r := of_uint63 (Uint63.of_Z n) in
        if s then - r else r
  | _ => a
  end.

Record IPathArc : Type := mkArc {
  startAngle : float;
  endAngle : float
}.

Definition noRevolutions (angleInDegrees : float) : float :=
  let revolutions := Math_floor (angleInDegrees / 360) in
  angleInDegrees - (360 * revolutions).

Definition areEqual (round : float -> float) (angle1 angle2 : float)
  : bool :=
  let a1 := noRevolutions (round angle1) in
  let a2 := noRevolutions (round angle2) in
  (a1 =? a2) || (a1 + 360 =? a2) || (a1 - 360 =? a2).

Definition toRadians (angleInDegrees : float) : float :=
  noRevolutions angleInDegrees * Math_PI / 180.

Definition toDegrees (angleInRadians : float) : float :=
  angleInRadians * 180 / Math_PI.

Definition ofArcEnd (arc : IPathArc) : float :=
  if endAngle arc <? startAngle arc
  then 360 + endAngle arc
  else endAngle arc.

Definition mirror (angleInDegrees : float) (mirrorX mirrorY : bool)
  : float :=
  let angleInDegrees :=
    if mirrorY then 360 - angleInDegrees else angleInDegrees in
  let angleInDegrees :=
    if mirrorX
    then (if angleInDegrees <? 180 then 180 else 540) - angleInDegrees
    else angleInDegrees in
  angleInDegrees.

(** The double of an integer, exact below [2^53] in absolute value. *)
Definition of_Z (z : Z) : float :=
  if (z <? 0)%Z then - of_uint63 (Uint63.of_Z (- z))
  else of_uint63 (Uint63.of_Z z).

(** The integers [lo], [lo + 1], ..., [lo + n - 1]. *)
Definition integers_from (lo : Z) (n : nat) : list Z :=
  List.map (fun i => (lo + Z.of_nat i)%Z) (List.seq 0 n).

End Binary64.

(** ** Directions, and further concrete inputs *)

Module Geometry.
Import Js angle.

(** The angle [theta], in radians, is the direction of the vector
    [(x, y)]: the vector is collinear with [(cos theta, sin theta)] and
    points the same way. *)
Definition points_along (theta x y : R) : Prop :=
  x * sin theta = y * cos theta /\ 0 < x * cos theta + y * sin theta.

(** The line from the end of [line] back to its origin. *)
Definition reversed (line : IPathLine) : IPathLine :=
  mkLine (line_end line) (line_origin line).

(** Modelled from the spec: [measure.arcAngle] lives in another file of
    the repository; the spec gives it as the end angle of [ofArcEnd] minus
    the start angle. *)
Definition measure_arcAngle (arc : IPathArc) : number :=
  sub (ofArcEnd arc) (startAngle arc).

(** The unit arc from 350 degrees to 10 degrees, through 0. *)
Definition arc_350_10 : IPathArc :=
  mkArc (Num 0, Num 0) (Num 1) (Num 350) (Num 10).

(** The diagonal line from the origin to [(1, 1)]. *)
Definition line_diagonal : IPathLine := mkLine (Num 0, Num 0) (Num 1, Num 1).

End Geometry.

(** ** Facts about the exact numbers *)

Section NumberFacts.
Import Js.

Lemma val_zero (s : bool) : val (zero s) = 0.
Proof. now destruct s. Qed.

Lemma val_make (s : bool) (r : R) : val (make s r) = r.
Proof.
  unfold make. destruct (Req_dec_T r 0) as [-> | _]; [apply val_zero | reflexivity].
Qed.

Lemma val_neg a : val (neg a) = - val a.
Proof. apply val_make. Qed.

Lemma val_add a b : val (add a b) = val a + val b.
Proof. apply val_make. Qed.

Lemma val_sub a b : val (sub a b) = val a - val b.
Proof. unfold sub. rewrite val_add, val_neg. lra. Qed.

Lemma val_mul a b : val (mul a b) = val a * val b.
Proof. apply val_make. Qed.

Lemma val_div a b : val (div a b) = val a / val b.
Proof. apply val_make. Qed.

Lemma val_floor a : val (Math_floor a) = IZR (Zfloor (val a)).
Proof. apply val_make. Qed.

Lemma ltb_lt a b : ltb a b = true <-> val a < val b.
Proof. unfold ltb. destruct (Rlt_dec (val a) (val b)); split; easy. Qed.

Lemma ltb_ge a b : ltb a b = false <-> val b <= val a.
Proof.
  unfold ltb. destruct (Rlt_dec (val a) (val b)); split; try easy; lra.
Qed.

Lemma eqb_eq a b : eqb a b = true <-> val a = val b.
Proof. unfold eqb. destruct (Req_dec_T (val a) (val b)); split; easy. Qed.

Lemma eqb_neq a b : eqb a b = false <-> val a <> val b.
Proof. unfold eqb. destruct (Req_dec_T (val a) (val b)); split; easy. Qed.

End NumberFacts.

Create Rewrite HintDb js_val.
#[global] Hint Rewrite val_make val_neg val_add val_sub val_mul val_div
  val_floor : js_val.

(** ** Normalization *)

Section Normalization.
Import Js angle.

Lemma val_noRevolutions a :
  val (noRevolutions a) = val a - 360 * IZR (Zfloor (val a / 360)).
Proof. unfold noRevolutions. now autorewrite with js_val. Qed.

Lemma noRevolutions_range a : 0 <= val (noRevolutions a) < 360.
Proof.
  rewrite val_noRevolutions.
  pose proof (Zfloor_bound (val a / 360)) as [Hlo Hhi].
  replace (val a) with (360 * (val a / 360)) at 1 3 by (field; lra).
  lra.
Qed.

(** An angle already in [[0, 360)] is its own normal form. *)
Lemma val_noRevolutions_small a :
  0 <= val a < 360 -> val (noRevolutions a) = val a.
Proof.
  intros H. rewrite val_noRevolutions.
  rewrite (Zfloor_eq 0 (val a / 360)); lra.
Qed.

(** The normal form of [x + 360 k] is [x] when [x] is in [[0, 360)]. *)
Lemma val_noRevolutions_shift a (k : Z) (x : R) :
  val a = x + 360 * IZR k -> 0 <= x < 360 -> val (noRevolutions a) = x.
Proof.
  intros Ha Hx. rewrite val_noRevolutions.
  rewrite (Zfloor_eq k (val a / 360)); [lra |].
  rewrite Ha. replace ((x + 360 * IZR k) / 360) with (x / 360 + IZR k)
    by (field; lra).
  lra.
Qed.




End Normalization.


(** ** Signs, and evaluation at concrete numbers *)

Section Signs.
Import Js.

Lemma signbit_false_nonneg a : signbit a = false -> 0 <= val a.
Proof.
  destruct a as [| r]; simpl; [discriminate |].
  destruct (Rlt_dec r 0); [discriminate | lra].
Qed.

Lemma signbit_true_nonpos a : signbit a = true -> val a <= 0.
Proof.
  destruct a as [| r]; simpl; [lra |].
  destruct (Rlt_dec r 0); [lra | discriminate].
Qed.

End Signs.

(** Evaluation of an expression on concrete exact numbers: the comparisons
    of real numbers are decided from the inside out, each by linear
    arithmetic. *)
Ltac js_ground t :=
  lazymatch t with
  | context [Rlt_dec _ _] => fail
  | context [Req_dec_T _ _] => fail
  | _ => idtac
  end.

Ltac js_step :=
  match goal with
  | |- context [Req_dec_T ?a ?b] =>
      js_ground a; js_ground b;
      destruct (Req_dec_T a b); [try (exfalso; lra) | try (exfalso; lra)]
  | |- context [Rlt_dec ?a ?b] =>
      js_ground a; js_ground b;
      destruct (Rlt_dec a b); [try (exfalso; lra) | try (exfalso; lra)]
  end.

Ltac js_eval :=
  pose proof PI_RGT_0;
  cbv [Js.add Js.sub Js.mul Js.div Js.neg Js.make Js.zero Js.signbit
       Js.val Js.ltb Js.eqb Js.Math_PI Js.Math_atan2
       negb andb orb xorb fst snd];
  repeat (js_step; cbv beta iota).

(** ** Unit conversion *)

Section Conversion.
Import Js angle.

Lemma val_toRadians a : val (toRadians a) = val (noRevolutions a) * PI / 180.
Proof. unfold toRadians. now rewrite val_div, val_mul. Qed.

Lemma val_toDegrees r : val (toDegrees r) = val r * 180 / PI.
Proof. unfold toDegrees. now rewrite val_div, val_mul. Qed.

Lemma toRadians_range a : 0 <= val (toRadians a) < 2 * PI.
Proof.
  rewrite val_toRadians.
  pose proof (noRevolutions_range a) as [Hlo Hhi].
  pose proof PI_RGT_0 as Hpi.
  set (x := val (noRevolutions a)) in *.
  replace (x * PI / 180) with (x * (PI / 180)) by (field; lra).
  replace (2 * PI) with (360 * (PI / 180)) by (field; lra).
  assert (0 < PI / 180) by lra.
  split.
  - apply Rmult_le_pos; lra.
  - apply Rmult_lt_compat_r; lra.
Qed.


(** C7.  [toDegrees r] is [r * 180 / PI] and nothing else: no revolution
    is taken off before or after.  [toDegrees (2 PI)] is [360], not [0],
    whereas [toRadians 360] is [0]. *)
Theorem toDegrees_does_not_normalize :
  (forall r : number,
      toDegrees r = (r * Num 180 / Math_PI)%js
      /\ val (toDegrees r) = val r * 180 / PI)
  /\ val (toDegrees (Num (2 * PI))) = 360
  /\ val (toDegrees (Num (2 * PI))) <> 0
  /\ val (toRadians (toDegrees (Num (2 * PI)))) = 0.
Proof.
  pose proof PI_RGT_0 as Hpi.
  assert (H360 : val (toDegrees (Num (2 * PI))) = 360).
  { rewrite val_toDegrees. simpl. field. lra. }
  repeat split.
  - apply val_toDegrees.
  - exact H360.
  - rewrite H360. lra.
  - rewrite val_toRadians, (val_noRevolutions_shift _ 1 0); rewrite ?H360; lra.
Qed.

End Conversion.

(** ** Mirroring *)

Section Mirroring.
Import Js angle Spec.

Lemma mirror_steps a mirrorX mirrorY :
  mirror a mirrorX mirrorY
  = step_if mirrorX mirrorX_step (step_if mirrorY mirrorY_step a).
Proof.
  unfold mirror, step_if, mirrorX_step, mirrorY_step.
  destruct mirrorY, mirrorX; try reflexivity.
  - now destruct (ltb (sub (Num 360) a) (Num 180)).
  - now destruct (ltb a (Num 180)).
Qed.

Lemma val_mirrorY_step a : val (mirrorY_step a) = 360 - val a.
Proof. unfold mirrorY_step. now rewrite val_sub. Qed.

Lemma val_mirrorX_step a :
  val (mirrorX_step a) = (if Rlt_dec (val a) 180 then 180 else 540) - val a.
Proof.
  unfold mirrorX_step, ltb. simpl (val (Num 180)).
  destruct (Rlt_dec (val a) 180); now rewrite val_sub.
Qed.

Lemma val_mirrorX_step_below a :
  val a < 180 -> val (mirrorX_step a) = 180 - val a.
Proof.
  intros H. rewrite val_mirrorX_step.
  destruct (Rlt_dec (val a) 180); [reflexivity | lra].
Qed.

Lemma val_mirrorX_step_above a :
  180 <= val a -> val (mirrorX_step a) = 540 - val a.
Proof.
  intros H. rewrite val_mirrorX_step.
  destruct (Rlt_dec (val a) 180); [lra | reflexivity].
Qed.

(** C4.  [mirror] applies the Y step ([a] becomes [360 - a]) and then the X
    step ([a] becomes [180 - a] below 180 and [540 - a] from 180 on, 180
    included).  [mirror 30 false true] is [330], [mirror 30 true false] is
    [150], [mirror 200 true false] is [340]; at 180 the other order of the
    two steps would give a different angle. *)
Theorem mirror_Y_then_X :
  (forall (a : number) (mirrorX mirrorY : bool),
      mirror a mirrorX mirrorY
      = step_if mirrorX mirrorX_step (step_if mirrorY mirrorY_step a))
  /\ (forall a, val (mirrorY_step a) = 360 - val a)
  /\ (forall a,
         val (mirrorX_step a)
         = (if Rlt_dec (val a) 180 then 180 else 540) - val a)
  /\ val (mirror (Num 180) true false) = 540 - 180
  /\ val (mirror (Num 30) false true) = 330
  /\ val (mirror (Num 30) true false) = 150
  /\ val (mirror (Num 200) true false) = 340
  /\ val (mirror (Num 180) true true) = 360
  /\ val (mirrorY_step (mirrorX_step (Num 180))) = 0.
Proof.
  split; [exact mirror_steps |].
  split; [exact val_mirrorY_step |].
  split; [exact val_mirrorX_step |].
  rewrite !mirror_steps. unfold step_if.
  repeat split.
  - rewrite val_mirrorX_step_above; simpl; lra.
  - rewrite val_mirrorY_step; simpl; lra.
  - rewrite val_mirrorX_step_below; simpl; lra.
  - rewrite val_mirrorX_step_above; simpl; lra.
  - rewrite val_mirrorX_step_above; rewrite val_mirrorY_step; simpl; lra.
  - rewrite val_mirrorY_step, val_mirrorX_step_above; simpl; lra.
Qed.

End Mirroring.

(** ** The end angle of an arc *)

Section ArcEnd.
Import Js angle Examples.

Lemma ofArcEnd_cases arc :
  ofArcEnd arc
  = if Rlt_dec (val (endAngle arc)) (val (startAngle arc))
    then add (Num 360) (endAngle arc)
    else endAngle arc.
Proof.
  unfold ofArcEnd, ltb.
  now destruct (Rlt_dec (val (endAngle arc)) (val (startAngle arc))).
Qed.

Lemma val_ofArcEnd arc :
  val (ofArcEnd arc)
  = if Rlt_dec (val (endAngle arc)) (val (startAngle arc))
    then val (endAngle arc) + 360
    else val (endAngle arc).
Proof.
  rewrite ofArcEnd_cases.
  destruct (Rlt_dec (val (endAngle arc)) (val (startAngle arc)));
    [rewrite val_add; simpl; lra | reflexivity].
Qed.

(** The end angle is not below the start angle as long as the start is
    less than a revolution past the end. *)
Lemma ofArcEnd_sweep_nonneg arc :
  val (startAngle arc) - val (endAngle arc) <= 360 ->
  0 <= val (ofArcEnd arc) - val (startAngle arc).
Proof.
  intros H. rewrite val_ofArcEnd.
  destruct (Rlt_dec (val (endAngle arc)) (val (startAngle arc))); lra.
Qed.

(** Between two normalized angles the sweep is never negative. *)
Lemma ofArcEnd_sweep_nonneg_normalized arc :
  0 <= val (startAngle arc) < 360 ->
  0 <= val (endAngle arc) < 360 ->
  0 <= val (ofArcEnd arc) - val (startAngle arc).
Proof. intros Hs He. apply ofArcEnd_sweep_nonneg. lra. Qed.

(** C1, at the arc from 400 to 0: the end angle is below the start angle,
    one revolution is added, and the result, 360, is still below the start
    angle: the result minus the start angle is negative. *)
Theorem ofArcEnd_one_revolution_short :
  val (endAngle arc_400_0) < val (startAngle arc_400_0)
  /\ val (ofArcEnd arc_400_0) = 360
  /\ val (ofArcEnd arc_400_0) - val (startAngle arc_400_0) < 0.
Proof.
  assert (H : val (ofArcEnd arc_400_0) = 360).
  { rewrite val_ofArcEnd. simpl.
    destruct (Rlt_dec 0 400); lra. }
  rewrite H. simpl. lra.
Qed.

End ArcEnd.

(** ** Equality of angles *)

Section Equality.
Import Js angle.

(** The normal form depends on the value only, and forgets whole
    revolutions. *)
Lemma val_noRevolutions_congr a b (k : Z) :
  val a = val b + 360 * IZR k ->
  val (noRevolutions a) = val (noRevolutions b).
Proof.
  intros H.
  apply (val_noRevolutions_shift _ (Zfloor (val b / 360) + k)).
  - rewrite H, val_noRevolutions, plus_IZR. lra.
  - apply noRevolutions_range.
Qed.

Lemma areEqual_true_iff round a b :
  areEqual round a b = true <->
  (val (noRevolutions (round a)) = val (noRevolutions (round b))
   \/ val (noRevolutions (round a)) + 360 = val (noRevolutions (round b))
   \/ val (noRevolutions (round a)) - 360 = val (noRevolutions (round b))).
Proof.
  unfold areEqual.
  set (a1 := noRevolutions (round a)). set (a2 := noRevolutions (round b)).
  rewrite !orb_true_iff, !eqb_eq, val_add, val_sub. simpl. tauto.
Qed.

(** In exact arithmetic two normal forms are never a revolution apart:
    only the first of the three comparisons can succeed. *)
Lemma areEqual_true_iff_same round a b :
  areEqual round a b = true <->
  val (noRevolutions (round a)) = val (noRevolutions (round b)).
Proof.
  rewrite areEqual_true_iff.
  pose proof (noRevolutions_range (round a)).
  pose proof (noRevolutions_range (round b)).
  split; [intros [H1 | [H1 | H1]]; lra | tauto].
Qed.

(** When the rounding commutes with the addition of a revolution, an angle
    and the same angle plus a revolution are equal. *)
Lemma areEqual_add_revolution round :
  (forall a, val (round (add a (Num 360))) = val (round a) + 360) ->
  forall a, areEqual round a (add a (Num 360)) = true.
Proof.
  intros Hround a. apply areEqual_true_iff_same. symmetry.
  apply (val_noRevolutions_congr _ _ 1). rewrite Hround. lra.
Qed.

(** When the rounding leaves 0 and 180 where they are, they are not
    equal. *)
Lemma areEqual_0_180 round :
  val (round (Num 0)) = 0 -> val (round (Num 180)) = 180 ->
  areEqual round (Num 0) (Num 180) = false.
Proof.
  intros H0 H180.
  apply not_true_is_false. rewrite areEqual_true_iff_same.
  rewrite (val_noRevolutions_small (round (Num 0))) by (rewrite H0; lra).
  rewrite (val_noRevolutions_small (round (Num 180))) by (rewrite H180; lra).
  rewrite H0, H180. lra.
Qed.

Variable round : number -> number.

(** What is asked of the rounding: it commutes with the addition of a
    revolution, and it leaves 0 and 180 where they are. *)
Hypothesis round_revolution :
  forall a, val (round (add a (Num 360))) = val (round a) + 360.
Hypothesis round_0 : val (round (Num 0)) = 0.
Hypothesis round_180 : val (round (Num 180)) = 180.


End Equality.

(** ** Decimal rounding *)

Section DecimalRounding.
Import Js angle Spec.

Lemma val_round_places p a :
  val (round_places p a) = IZR (Zfloor (val a * 10 ^ p + / 2)) / 10 ^ p.
Proof. apply val_make. Qed.

Lemma pow10_IZR p : 10 ^ p = IZR (10 ^ Z.of_nat p).
Proof. apply pow_IZR. Qed.

(** Decimal rounding fixes the integers. *)
Lemma round_places_integer p (z : Z) a :
  val a = IZR z -> val (round_places p a) = IZR z.
Proof.
  intros H. rewrite val_round_places, H.
  assert (Hp : 10 ^ p <> 0) by (apply pow_nonzero; lra).
  rewrite (Zfloor_eq (z * 10 ^ Z.of_nat p)).
  - rewrite mult_IZR, <- pow10_IZR. now field.
  - rewrite mult_IZR, <- pow10_IZR. lra.
Qed.

(** Decimal rounding commutes with the addition of an integer. *)
Lemma round_places_add_integer p (z : Z) a b :
  val b = val a + IZR z ->
  val (round_places p b) = val (round_places p a) + IZR z.
Proof.
  intros H. rewrite !val_round_places, H.
  assert (Hp : 10 ^ p <> 0) by (apply pow_nonzero; lra).
  replace ((val a + IZR z) * 10 ^ p + / 2)
    with (val a * 10 ^ p + / 2 + IZR (z * 10 ^ Z.of_nat p))
    by (rewrite mult_IZR, <- pow10_IZR; ring).
  rewrite Zfloor_addz, plus_IZR, mult_IZR, <- pow10_IZR. now field.
Qed.

Lemma round_places_revolution p a :
  val (round_places p (add a (Num 360))) = val (round_places p a) + 360.
Proof. apply (round_places_add_integer p 360). now rewrite val_add. Qed.

Lemma round_places_0 p : val (round_places p (Num 0)) = 0.
Proof. now apply (round_places_integer p 0). Qed.

Lemma round_places_180 p : val (round_places p (Num 180)) = 180.
Proof. now apply (round_places_integer p 180). Qed.

(** Under decimal rounding, whatever the number of places, an angle and
    the same angle plus a revolution are equal, and 0 and 180 are not. *)
Corollary areEqual_round_places p :
  (forall a, areEqual (round_places p) a (add a (Num 360)) = true)
  /\ areEqual (round_places p) (Num 0) (Num 180) = false.
Proof.
  split.
  - apply areEqual_add_revolution, round_places_revolution.
  - apply areEqual_0_180; [apply round_places_0 | apply round_places_180].
Qed.

End DecimalRounding.


(** ** Angles of points and lines *)

Section Points.
Import Js angle Examples.

Lemma atan_pos x : 0 < x -> 0 < atan x.
Proof. intros H. rewrite <- atan_0. now apply atan_increasing. Qed.

Lemma atan_neg x : x < 0 -> atan x < 0.
Proof. intros H. rewrite <- atan_0. now apply atan_increasing. Qed.

Lemma Math_atan2_range y x : - PI <= val (Math_atan2 y x) <= PI.
Proof.
  pose proof PI_RGT_0 as Hpi.
  unfold Math_atan2.
  destruct (Req_dec_T (val y) 0) as [Hy | Hy].
  { destruct (signbit x), (signbit y); simpl; lra. }
  destruct (Req_dec_T (val x) 0) as [Hx | Hx].
  { destruct (signbit y); simpl; lra. }
  pose proof (atan_bound (val y / val x)) as Hb.
  destruct (Rlt_dec 0 (val x)) as [Hpos | Hneg]; [simpl; lra |].
  assert (Hx' : val x < 0) by lra.
  destruct (signbit y) eqn:Hs; simpl.
  - apply signbit_true_nonpos in Hs.
    assert (0 < atan (val y / val x)); [| lra].
    apply atan_pos, Rdiv_neg_neg; lra.
  - apply signbit_false_nonneg in Hs.
    assert (atan (val y / val x) < 0); [| lra].
    apply atan_neg, Rdiv_pos_neg; lra.
Qed.

Lemma val_ofPointInRadians origin target :
  val (ofPointInRadians origin target)
  = val (Math_atan2 (neg (sub (snd target) (snd origin)))
                    (neg (sub (fst target) (fst origin)))) + PI.
Proof. unfold ofPointInRadians, point_subtract. now rewrite val_add. Qed.

Lemma val_ofPointInRadians_east_negative_zero :
  val (ofPointInRadians origin_point east_negative_zero) = 2 * PI.
Proof.
  unfold ofPointInRadians, point_subtract, origin_point, east_negative_zero.
  js_eval. lra.
Qed.


(** [Math.atan2] returns [PI] for the positive zero over a negative
    abscissa (the negative zero included), and there only. *)
Lemma Math_atan2_eq_PI y x :
  val (Math_atan2 y x) = PI <-> (y = Num 0 /\ signbit x = true).
Proof.
  pose proof PI_RGT_0 as Hpi.
  unfold Math_atan2.
  destruct (Req_dec_T (val y) 0) as [Hy | Hy].
  { destruct (signbit x) eqn:Hx, (signbit y) eqn:Hs; simpl;
      (split; [intros H | intros [H1 H2]]); try lra; try discriminate.
    - subst y. simpl in Hs. destruct (Rlt_dec 0 0); [lra | discriminate].
    - split; [| reflexivity].
      destruct y as [| r]; [discriminate | simpl in Hy; now subst r]. }
  assert (Hno : ~ (y = Num 0 /\ signbit x = true)).
  { intros [-> _]. now apply Hy. }
  destruct (Req_dec_T (val x) 0) as [Hx | Hx].
  { destruct (signbit y); simpl; split; try tauto; lra. }
  pose proof (atan_bound (val y / val x)) as Hb.
  destruct (Rlt_dec 0 (val x)) as [Hpos | Hneg];
    [simpl; split; try tauto; lra |].
  destruct (signbit y) eqn:Hs; simpl; (split; [intros H | tauto]).
  - lra.
  - apply signbit_false_nonneg in Hs.
    assert (atan (val y / val x) < 0); [| lra].
    apply atan_neg, Rdiv_pos_neg; lra.
Qed.

Lemma neg_eq_positive_zero a : neg a = Num 0 -> a = NegZero.
Proof.
  destruct a as [| r]; [reflexivity |].
  unfold neg, make. simpl.
  destruct (Req_dec_T (- r) 0) as [H | H].
  - destruct (Rlt_dec r 0); [lra | discriminate].
  - intros [= E]. lra.
Qed.

(** The value [2 PI] is reached only when the difference of the ordinates
    is the negative zero. *)
Lemma ofPointInRadians_lt_two_PI origin target :
  snd (point_subtract target origin) <> NegZero ->
  val (ofPointInRadians origin target) < 2 * PI.
Proof.
  intros Hd.
  pose proof (Math_atan2_range
                (neg (snd (point_subtract target origin)))
                (neg (fst (point_subtract target origin)))) as Hr.
  assert (Hne : val (Math_atan2
                       (neg (snd (point_subtract target origin)))
                       (neg (fst (point_subtract target origin)))) <> PI).
  { intros H. apply Math_atan2_eq_PI in H as [H _].
    now apply neg_eq_positive_zero in H. }
  unfold ofPointInRadians. rewrite val_add. simpl val at 2. lra.
Qed.


Lemma val_ofLineInDegrees line :
  val (ofLineInDegrees line)
  = val (noRevolutions
           (toDegrees (ofPointInRadians (line_origin line) (line_end line)))).
Proof. reflexivity. Qed.

(** A line whose angle in radians is [x] degrees, with [x] in [[0, 360)],
    has the angle [x] in degrees. *)
Lemma ofLineInDegrees_of_radians line (x : R) :
  val (ofPointInRadians (line_origin line) (line_end line)) = x * PI / 180 ->
  0 <= x < 360 ->
  val (ofLineInDegrees line) = x.
Proof.
  intros H Hx. pose proof PI_RGT_0 as Hpi.
  assert (Hd : val (toDegrees
                      (ofPointInRadians (line_origin line) (line_end line)))
               = x).
  { rewrite val_toDegrees, H. field. lra. }
  rewrite val_ofLineInDegrees, val_noRevolutions_small; rewrite Hd; lra.
Qed.

(** C8.  [ofLineInDegrees line] is
    [noRevolutions (toDegrees (ofPointInRadians line.origin line.end))]: it
    is normalized, and [ofPointInDegrees] is not.  From the origin, the
    line to [(1,0)] has the angle 0, to [(0,1)] 90, to [(-1,0)] 180 and to
    [(0,-1)] 270. *)
Theorem ofLineInDegrees_normalizes :
  (forall line : IPathLine,
      ofLineInDegrees line
      = noRevolutions
          (toDegrees (ofPointInRadians (line_origin line) (line_end line)))
      /\ 0 <= val (ofLineInDegrees line) < 360)
  /\ val (ofLineInDegrees line_east) = 0
  /\ val (ofLineInDegrees line_north) = 90
  /\ val (ofLineInDegrees line_west) = 180
  /\ val (ofLineInDegrees line_south) = 270
  /\ val (ofPointInDegrees origin_point east_negative_zero) = 360
  /\ val (ofLineInDegrees (mkLine origin_point east_negative_zero)) = 0.
Proof.
  pose proof PI_RGT_0 as Hpi.
  split.
  { intros line. split; [reflexivity | apply noRevolutions_range]. }
  assert (H360 : val (ofPointInDegrees origin_point east_negative_zero)
                 = 360).
  { unfold ofPointInDegrees.
    rewrite val_toDegrees, val_ofPointInRadians_east_negative_zero.
    field. lra. }
  repeat split.
  - apply ofLineInDegrees_of_radians; [| lra].
    unfold ofPointInRadians, point_subtract, line_east, origin_point.
    cbn [line_origin line_end]. js_eval. lra.
  - apply ofLineInDegrees_of_radians; [| lra].
    unfold ofPointInRadians, point_subtract, line_north, origin_point.
    cbn [line_origin line_end]. js_eval. lra.
  - apply ofLineInDegrees_of_radians; [| lra].
    unfold ofPointInRadians, point_subtract, line_west, origin_point.
    cbn [line_origin line_end]. js_eval. lra.
  - apply ofLineInDegrees_of_radians; [| lra].
    unfold ofPointInRadians, point_subtract, line_south, origin_point.
    cbn [line_origin line_end]. js_eval. lra.
  - exact H360.
  - rewrite val_ofLineInDegrees. simpl line_origin. simpl line_end.
    apply (val_noRevolutions_shift _ 1 0); [| lra].
    change (val (ofPointInDegrees origin_point east_negative_zero)
            = 0 + 360 * 1).
    rewrite H360. lra.
Qed.

End Points.

(** ** Double precision

    The functions of [Binary64] compute.  The values the specification
    quotes come out the same on doubles; the general statements above are
    statements of exact arithmetic, and the last remarks show where the
    rounding of a double departs from them. *)

Section DoublePrecision.
Import Binary64.
Local Open Scope float_scope.

Example floor_samples :
  Math_floor 2.5 = 2 /\ Math_floor (-2.5) = -3 /\ Math_floor (-3) = -3
  /\ Math_floor 0.5 = 0 /\ Math_floor (-0.5) = -1
  /\ Math_floor (-0) = -0 /\ Math_floor 0x1p60 = 0x1p60.
Proof. repeat split; vm_compute; reflexivity. Qed.

Example noRevolutions_samples :
  noRevolutions (-10) = 350 /\ noRevolutions 360 = 0
  /\ noRevolutions 725 = 5 /\ noRevolutions 359.5 = 359.5.
Proof. repeat split; vm_compute; reflexivity. Qed.

(** On every whole number of degrees from -1800 to 1800 the double
    precision result is the remainder of the division by 360, as in exact
    arithmetic, and normalizing it again leaves it unchanged. *)
Example noRevolutions_whole_degrees :
  List.forallb
    (fun z =>
       (noRevolutions (of_Z z) =? of_Z (z mod 360))
       && (noRevolutions (noRevolutions (of_Z z)) =? noRevolutions (of_Z z))
       && (noRevolutions (of_Z z + 360) =? noRevolutions (of_Z z)))
    (integers_from (-1800) 3601)
  = true.
Proof. vm_compute. reflexivity. Qed.

Example conversion_samples :
  toRadians 360 = 0 /\ toRadians 180 = Math_PI
  /\ toDegrees (2 * Math_PI) = 360 /\ toDegrees Math_PI = 180
  /\ noRevolutions (toDegrees (Math_PI / 2)) = 90
  /\ noRevolutions (toDegrees (Math_PI / 2 + Math_PI)) = 270.
Proof. repeat split; vm_compute; reflexivity. Qed.

Example ofArcEnd_samples :
  ofArcEnd (mkArc 350 10) = 370 /\ ofArcEnd (mkArc 10 350) = 350
  /\ ofArcEnd (mkArc 90 90) = 90.
Proof. repeat split; vm_compute; reflexivity. Qed.

(** The arc from 400 to 0 on doubles: one revolution is added, and the
    result is still below the start angle. *)
Example ofArcEnd_400_0 :
  ofArcEnd (mkArc 400 0) = 360
  /\ (ofArcEnd (mkArc 400 0) - startAngle (mkArc 400 0) <? 0) = true.
Proof. split; vm_compute; reflexivity. Qed.

Example mirror_samples :
  mirror 30 false true = 330 /\ mirror 30 true false = 150
  /\ mirror 200 true false = 340 /\ mirror 180 true false = 360
  /\ mirror 30 true true = 210 /\ mirror 45 false false = 45.
Proof. repeat split; vm_compute; reflexivity. Qed.

(** Rounding.  A negative angle much smaller than the spacing of the
    doubles near 360 is normalized to 360 itself, since [360 - 2^-60]
    rounds to 360; normalizing once more gives 0. *)
Remark noRevolutions_rounds_to_360 :
  noRevolutions (-0x1p-60) = 360
  /\ noRevolutions (noRevolutions (-0x1p-60)) = 0
  /\ toRadians (-0x1p-60) = 2 * Math_PI.
Proof. repeat split; vm_compute; reflexivity. Qed.

(** Rounding.  The double nearest to 0.1 and the same plus a revolution
    have normal forms that differ in the last places, so that [areEqual]
    tells them apart when the rounding leaves both as they are. *)
Remark noRevolutions_revolution_rounds :
  noRevolutions 0x1.999999999999ap-4 = 0x1.999999999999ap-4
  /\ (noRevolutions (0x1.999999999999ap-4 + 360 * 1)
      =? noRevolutions 0x1.999999999999ap-4) = false
  /\ areEqual (fun a => a) 0x1.999999999999ap-4
       (0x1.999999999999ap-4 + 360) = false.
Proof. repeat split; vm_compute; reflexivity. Qed.

End DoublePrecision.

(** * Further properties of the module

    What follows goes beyond the statements above: more about the same
    functions, and the two that were not met yet, [ofArcMiddle] and
    [ofPointInDegrees]. *)

(** ** Normal forms *)

Section NormalForms.
Import Js angle.

Lemma val_noRevolutions_decompose a :
  val a = val (noRevolutions a) + 360 * IZR (Zfloor (val a / 360)).
Proof. rewrite val_noRevolutions. lra. Qed.


Lemma noRevolutions_same_differ a b :
  val (noRevolutions a) = val (noRevolutions b) ->
  exists k : Z, val a = val b + 360 * IZR k.
Proof.
  intros H.
  exists (Zfloor (val a / 360) - Zfloor (val b / 360))%Z.
  rewrite minus_IZR.
  rewrite (val_noRevolutions_decompose a) at 1.
  rewrite (val_noRevolutions_decompose b) at 1.
  rewrite H. lra.
Qed.

Lemma noRevolutions_differ_same a b :
  (exists k : Z, val a = val b + 360 * IZR k) ->
  val (noRevolutions a) = val (noRevolutions b).
Proof. intros [k Hk]. now apply (val_noRevolutions_congr a b k). Qed.



Lemma signbit_make_zero s r : r = 0 -> signbit (make s r) = s.
Proof.
  intros ->. unfold make. destruct (Req_dec_T 0 0); [| lra].
  destruct s; simpl; [reflexivity |].
  destruct (Rlt_dec 0 0); [lra | reflexivity].
Qed.

Lemma signbit_make_pos s r : 0 < r -> signbit (make s r) = false.
Proof.
  intros H. unfold make. destruct (Req_dec_T r 0); [lra |].
  simpl. destruct (Rlt_dec r 0); [lra | reflexivity].
Qed.

Lemma signbit_make_neg s r : r < 0 -> signbit (make s r) = true.
Proof.
  intros H. unfold make. destruct (Req_dec_T r 0); [lra |].
  simpl. destruct (Rlt_dec r 0); [reflexivity | lra].
Qed.


End NormalForms.

(** ** Conversions, there and back *)

Section RoundTrips.
Import Js angle.


Lemma val_toRadians_toDegrees r :
  val (toRadians (toDegrees r))
  = val r - 2 * PI * IZR (Zfloor (val r / (2 * PI))).
Proof.
  pose proof PI_RGT_0.
  rewrite val_toRadians, val_noRevolutions, val_toDegrees.
  replace (val r * 180 / PI / 360) with (val r / (2 * PI)) by (field; lra).
  field. lra.
Qed.


End RoundTrips.

(** Finds the number of revolutions, among -1, 0 and 1, by which two
    values differ. *)
Ltac revolutions :=
  first [ exists 0%Z; simpl; lra
        | exists 1%Z; simpl; lra
        | exists (-1)%Z; simpl; lra ].

(** ** Mirrors, up to a revolution *)

Section MirrorsModulo.
Import Js angle Spec.

Lemma val_mirror a mirrorX mirrorY :
  val (mirror a mirrorX mirrorY)
  = (let a1 := if mirrorY then 360 - val a else val a in
     if mirrorX then (if Rlt_dec a1 180 then 180 else 540) - a1 else a1).
Proof.
  rewrite mirror_steps. unfold step_if.
  destruct mirrorX, mirrorY; cbv zeta;
    rewrite ?val_mirrorX_step, ?val_mirrorY_step; reflexivity.
Qed.



(** X9.  An angle between 0 and 360, ends included, is mirrored to an
    angle between 0 and 360. *)
Theorem mirror_range :
  forall (a : number) (mirrorX mirrorY : bool),
    0 <= val a <= 360 ->
    0 <= val (mirror a mirrorX mirrorY) <= 360.
Proof.
  intros a mirrorX mirrorY H.
  rewrite val_mirror. destruct mirrorX, mirrorY; cbv zeta;
    repeat match goal with
           | |- context [Rlt_dec ?u ?v] => destruct (Rlt_dec u v)
           end;
    lra.
Qed.


End MirrorsModulo.

(** The angle 30 is mirrored on both axes to an angle between 0 and
    360. *)
Lemma mirror_range_30 :
  0 <= Js.val (Js.Num 30) <= 360
  /\ 0 <= Js.val (angle.mirror (Js.Num 30) true true) <= 360.
Proof.
  assert (H : 0 <= Js.val (Js.Num 30) <= 360) by (simpl; lra).
  exact (conj H (mirror_range (Js.Num 30) true true H)).
Defined.

(** ** Arcs *)

Section Arcs.
Import Js angle Geometry.




End Arcs.



(** ** Equality of angles, as a relation *)

Section EqualityRelation.
Import Js angle.

Variable round : number -> number.

Lemma areEqual_eqb a b :
  areEqual round a b
  = eqb (noRevolutions (round a)) (noRevolutions (round b)).
Proof.
  apply eq_true_iff_eq. rewrite areEqual_true_iff_same. symmetry.
  apply eqb_eq.
Qed.




End EqualityRelation.

(** ** Directions *)

Section Directions.
Import Js angle Geometry.

Lemma cos_atan_pos t : 0 < cos (atan t).
Proof. apply cos_gt_0; pose proof (atan_bound t); lra. Qed.

Lemma sin_atan_cos t : sin (atan t) = t * cos (atan t).
Proof.
  pose proof (tan_atan t) as H. unfold tan in H.
  pose proof (cos_atan_pos t) as Hc.
  transitivity (sin (atan t) / cos (atan t) * cos (atan t));
    [field; lra | now rewrite H].
Qed.

Lemma sin_minus_PI x : sin (x - PI) = - sin x.
Proof. rewrite sin_minus, sin_PI, cos_PI. ring. Qed.

Lemma cos_minus_PI x : cos (x - PI) = - cos x.
Proof. rewrite cos_minus, sin_PI, cos_PI. ring. Qed.

Lemma norm2_pos x y : x <> 0 \/ y <> 0 -> 0 < x * x + y * y.
Proof. intros [H | H]; nra. Qed.

(** The direction along [atan (y / x)], when [x] is not zero: collinear
    with [(x, y)], and on the side of [x]. *)
Lemma atan_collinear x y :
  x <> 0 ->
  x * sin (atan (y / x)) = y * cos (atan (y / x)).
Proof. intros Hx. rewrite sin_atan_cos. field. exact Hx. Qed.

Lemma atan_dot_pos x y :
  0 < x ->
  0 < x * cos (atan (y / x)) + y * sin (atan (y / x)).
Proof.
  intros Hx. rewrite sin_atan_cos.
  pose proof (cos_atan_pos (y / x)) as Hc.
  replace (x * cos (atan (y / x)) + y * (y / x * cos (atan (y / x))))
    with (cos (atan (y / x)) * ((x * x + y * y) * / x)) by (field; lra).
  apply Rmult_lt_0_compat; [exact Hc |].
  apply Rmult_lt_0_compat; [nra | now apply Rinv_0_lt_compat].
Qed.

Lemma atan_dot_neg x y :
  x < 0 ->
  x * cos (atan (y / x)) + y * sin (atan (y / x)) < 0.
Proof.
  intros Hx. rewrite sin_atan_cos.
  pose proof (cos_atan_pos (y / x)) as Hc.
  replace (x * cos (atan (y / x)) + y * (y / x * cos (atan (y / x))))
    with (- (cos (atan (y / x)) * ((x * x + y * y) * / - x)))
    by (field; lra).
  assert (0 < cos (atan (y / x)) * ((x * x + y * y) * / - x)); [| lra].
  apply Rmult_lt_0_compat; [exact Hc |].
  apply Rmult_lt_0_compat; [nra | apply Rinv_0_lt_compat; lra].
Qed.

(** [Math.atan2 (y, x)] is the direction of the vector [(x, y)], when the
    vector is not null. *)
Lemma Math_atan2_points_along y x :
  val x <> 0 \/ val y <> 0 ->
  points_along (val (Math_atan2 y x)) (val x) (val y).
Proof.
  intros Hxy. pose proof PI_RGT_0 as Hpi.
  unfold Math_atan2, points_along.
  destruct (Req_dec_T (val y) 0) as [Hy | Hy].
  { assert (Hx : val x <> 0) by (destruct Hxy; [assumption | contradiction]).
    rewrite Hy.
    destruct (signbit x) eqn:Hsx.
    - apply signbit_true_nonpos in Hsx.
      destruct (signbit y); simpl val;
        rewrite ?sin_neg, ?cos_neg, sin_PI, cos_PI; lra.
    - apply signbit_false_nonneg in Hsx.
      rewrite val_zero, sin_0, cos_0. lra. }
  destruct (Req_dec_T (val x) 0) as [Hx | Hx].
  { rewrite Hx.
    destruct (signbit y) eqn:Hsy; simpl val.
    - apply signbit_true_nonpos in Hsy.
      rewrite sin_neg, cos_neg, sin_PI2, cos_PI2. lra.
    - apply signbit_false_nonneg in Hsy.
      rewrite sin_PI2, cos_PI2. lra. }
  pose proof (atan_collinear (val x) (val y) Hx) as Hcol.
  destruct (Rlt_dec 0 (val x)) as [Hpos | Hneg].
  { simpl val. split; [exact Hcol | now apply atan_dot_pos]. }
  assert (Hx' : val x < 0) by lra.
  pose proof (atan_dot_neg (val x) (val y) Hx') as Hdot.
  destruct (signbit y); simpl val.
  - rewrite sin_minus_PI, cos_minus_PI. lra.
  - rewrite neg_sin, neg_cos. lra.
Qed.


Lemma signbit_neg a : signbit (neg a) = negb (signbit a).
Proof.
  unfold neg.
  destruct (Rtotal_order (val a) 0) as [H | [H | H]].
  - rewrite signbit_make_pos by lra.
    destruct a as [| r]; simpl in *; [lra |].
    destruct (Rlt_dec r 0); [reflexivity | lra].
  - rewrite signbit_make_zero by lra. reflexivity.
  - rewrite signbit_make_neg by lra.
    destruct a as [| r]; simpl in *; [lra |].
    destruct (Rlt_dec r 0); [lra | reflexivity].
Qed.

(** A number minus itself is the positive zero. *)
Lemma sub_self a : sub a a = Num 0.
Proof.
  unfold sub, add. rewrite signbit_neg, val_neg.
  unfold make. destruct (Req_dec_T (val a + - val a) 0); [| lra].
  now destruct (signbit a).
Qed.

Lemma val_ofPointInRadians_self p : val (ofPointInRadians p p) = 0.
Proof.
  unfold ofPointInRadians, point_subtract. cbn [fst snd].
  rewrite !sub_self. js_eval. lra.
Qed.

Lemma val_toDegrees_zero r : val r = 0 -> val (toDegrees r) = 0.
Proof.
  intros H. pose proof PI_RGT_0. rewrite val_toDegrees, H. field. lra.
Qed.

(** X18.  A point seen from itself has the angle 0, in radians and in
    degrees, and so has a line whose end is its origin. *)
Theorem ofPoint_degenerate :
  forall p : IPoint,
    val (ofPointInRadians p p) = 0
    /\ val (ofPointInDegrees p p) = 0
    /\ val (ofLineInDegrees (mkLine p p)) = 0.
Proof.
  intros p.
  pose proof (val_ofPointInRadians_self p) as H0.
  pose proof (val_toDegrees_zero _ H0) as H1.
  split; [exact H0 |]. split; [exact H1 |].
  rewrite val_ofLineInDegrees. cbn [line_origin line_end].
  rewrite val_noRevolutions_small; rewrite H1; lra.
Qed.

Lemma val_ofPointInRadians_range origin target :
  0 <= val (ofPointInRadians origin target) <= 2 * PI.
Proof.
  rewrite val_ofPointInRadians.
  pose proof (Math_atan2_range
                (neg (sub (snd target) (snd origin)))
                (neg (sub (fst target) (fst origin)))).
  lra.
Qed.

Lemma val_ofPointInDegrees_range origin target :
  0 <= val (ofPointInDegrees origin target) <= 360.
Proof.
  pose proof PI_RGT_0 as Hpi.
  pose proof (val_ofPointInRadians_range origin target) as [Hlo Hhi].
  unfold ofPointInDegrees. rewrite val_toDegrees.
  set (t := val (ofPointInRadians origin target)) in *.
  replace (t * 180 / PI) with (t * (180 / PI)) by (field; lra).
  assert (H180 : 0 < 180 / PI) by (apply Rdiv_pos_pos; lra).
  split.
  - apply Rmult_le_pos; lra.
  - replace 360 with (2 * PI * (180 / PI)) by (field; lra).
    apply Rmult_le_compat_r; lra.
Qed.

(** The angle of a line is the angle of its end seen from its origin,
    except that 360 becomes 0. *)
Lemma ofLineInDegrees_ofPointInDegrees origin target :
  val (ofLineInDegrees (mkLine origin target))
  = val (ofPointInDegrees origin target)
  \/ (val (ofPointInDegrees origin target) = 360
      /\ val (ofLineInDegrees (mkLine origin target)) = 0).
Proof.
  pose proof (val_ofPointInDegrees_range origin target) as [Hlo Hhi].
  rewrite val_ofLineInDegrees. cbn [line_origin line_end].
  fold (ofPointInDegrees origin target).
  destruct (Req_dec_T (val (ofPointInDegrees origin target)) 360)
    as [H360 | Hne].
  - right. split; [exact H360 |].
    apply (val_noRevolutions_shift _ 1 0); lra.
  - left. apply val_noRevolutions_small. lra.
Qed.

(** X19.  [ofPointInDegrees] stays between 0 and 360, ends included, and
    [ofLineInDegrees] is the same angle, except that it returns 0 where
    [ofPointInDegrees] returns 360. *)
Theorem ofPointInDegrees_range :
  forall origin target : IPoint,
    0 <= val (ofPointInDegrees origin target) <= 360
    /\ (val (ofLineInDegrees (mkLine origin target))
        = val (ofPointInDegrees origin target)
        \/ (val (ofPointInDegrees origin target) = 360
            /\ val (ofLineInDegrees (mkLine origin target)) = 0)).
Proof.
  intros origin target. split.
  - apply val_ofPointInDegrees_range.
  - apply ofLineInDegrees_ofPointInDegrees.
Qed.

End Directions.


(** ** Lines and their reverses *)

Section Lines.
Import Js angle Geometry.

Lemma val_toRadians_small a :
  0 <= val a < 360 -> val (toRadians a) = val a * PI / 180.
Proof. intros H. now rewrite val_toRadians, val_noRevolutions_small. Qed.

Lemma val_ofLineInDegrees_range line :
  0 <= val (ofLineInDegrees line) < 360.
Proof. rewrite val_ofLineInDegrees. apply noRevolutions_range. Qed.

Lemma points_along_2PI x y : points_along (2 * PI) x y -> points_along 0 x y.
Proof. unfold points_along. now rewrite sin_2PI, cos_2PI, sin_0, cos_0. Qed.

Lemma points_along_line line :
  val (fst (line_end line)) <> val (fst (line_origin line))
  \/ val (snd (line_end line)) <> val (snd (line_origin line)) ->
  points_along (val (toRadians (ofLineInDegrees line)))
    (val (fst (line_end line)) - val (fst (line_origin line)))
    (val (snd (line_end line)) - val (snd (line_origin line))).
Proof.
  intros Hdiff. pose proof PI_RGT_0 as Hpi.
  assert (Hdir : points_along
                   (val (ofPointInRadians (line_origin line) (line_end line)))
                   (val (fst (line_end line)) - val (fst (line_origin line)))
                   (val (snd (line_end line)) - val (snd (line_origin line)))).
  { rewrite val_ofPointInRadians.
    destruct (Math_atan2_points_along
                (neg (sub (snd (line_end line)) (snd (line_origin line))))
                (neg (sub (fst (line_end line)) (fst (line_origin line)))))
      as [Hcol Hdot].
    { rewrite !val_neg, !val_sub. destruct Hdiff; [left | right]; lra. }
    rewrite !val_neg, !val_sub in Hcol, Hdot.
    unfold points_along. rewrite neg_sin, neg_cos. lra. }
  rewrite val_toRadians_small by apply val_ofLineInDegrees_range.
  destruct line as [o e]. cbn [line_origin line_end] in *.
  destruct (ofLineInDegrees_ofPointInDegrees o e) as [Heq | [H360 H0]].
  - rewrite Heq. unfold ofPointInDegrees. rewrite val_toDegrees.
    replace (val (ofPointInRadians o e) * 180 / PI * PI / 180)
      with (val (ofPointInRadians o e)) by (field; lra).
    exact Hdir.
  - rewrite H0. replace (0 * PI / 180) with 0 by lra.
    apply points_along_2PI.
    unfold ofPointInDegrees in H360. rewrite val_toDegrees in H360.
    replace (2 * PI) with (val (ofPointInRadians o e)); [exact Hdir |].
    apply (Rmult_eq_reg_r (180 / PI));
      [| apply Rgt_not_eq, Rdiv_pos_pos; lra].
    replace (2 * PI * (180 / PI)) with 360 by (field; lra).
    rewrite <- H360. field. lra.
Qed.

(** The angle of a line, taken back to radians, is the direction of
    the line: the vector from the origin of the line to its end is a
    positive multiple of the cosine and sine of that angle. *)
Theorem ofLineInDegrees_direction :
  forall line : IPathLine,
    val (fst (line_end line)) <> val (fst (line_origin line))
    \/ val (snd (line_end line)) <> val (snd (line_origin line)) ->
    points_along (val (toRadians (ofLineInDegrees line)))
      (val (fst (line_end line)) - val (fst (line_origin line)))
      (val (snd (line_end line)) - val (snd (line_origin line))).
Proof. exact points_along_line. Qed.

(** Two directions of one vector differ by a multiple of a whole turn:
    the sine of their difference is zero and its cosine positive. *)
Lemma points_along_unique u v x y :
  points_along u x y -> points_along v x y ->
  sin (u - v) = 0 /\ 0 < cos (u - v).
Proof.
  intros [Hu Du] [Hv Dv].
  assert (Hn : 0 < x * x + y * y).
  { apply norm2_pos.
    destruct (Req_dec_T x 0) as [-> | Hx]; [right | now left].
    intros ->. lra. }
  rewrite sin_minus, cos_minus.
  assert (A1 : x * cos v * (x * sin u) = x * cos v * (y * cos u))
    by now rewrite Hu.
  assert (A2 : y * sin u * (x * sin v) = y * sin u * (y * cos v))
    by now rewrite Hv.
  assert (A3 : x * cos u * (x * sin v) = x * cos u * (y * cos v))
    by now rewrite Hv.
  assert (A4 : y * sin v * (x * sin u) = y * sin v * (y * cos u))
    by now rewrite Hu.
  assert (Hs : (x * x + y * y) * (sin u * cos v - cos u * sin v) = 0)
    by lra.
  assert (B1 : y * cos u * (x * sin v) = y * cos u * (y * cos v))
    by now rewrite Hv.
  assert (B2 : x * sin u * (x * sin v) = x * sin u * (y * cos v))
    by now rewrite Hv.
  assert (Hc : (x * x + y * y) * (cos u * cos v + sin u * sin v)
               = (x * cos u + y * sin u) * (x * cos v + y * sin v))
    by lra.
  split.
  - apply (Rmult_eq_reg_l (x * x + y * y)); lra.
  - apply (Rmult_lt_reg_l (x * x + y * y)); [exact Hn |].
    rewrite Hc, Rmult_0_r. now apply Rmult_lt_0_compat.
Qed.

End Lines.

(** The diagonal line from the origin to [(1, 1)]: its angle, taken back
    to radians, is a direction of the vector [(1, 1)]. *)
Lemma ofLineInDegrees_direction_diagonal :
  (Js.val (fst (angle.line_end Geometry.line_diagonal))
   <> Js.val (fst (angle.line_origin Geometry.line_diagonal))
   \/ Js.val (snd (angle.line_end Geometry.line_diagonal))
      <> Js.val (snd (angle.line_origin Geometry.line_diagonal)))
  /\ Geometry.points_along
       (Js.val (angle.toRadians
                  (angle.ofLineInDegrees Geometry.line_diagonal)))
       (Js.val (fst (angle.line_end Geometry.line_diagonal))
        - Js.val (fst (angle.line_origin Geometry.line_diagonal)))
       (Js.val (snd (angle.line_end Geometry.line_diagonal))
        - Js.val (snd (angle.line_origin Geometry.line_diagonal))).
Proof.
  assert (H : Js.val (fst (angle.line_end Geometry.line_diagonal))
              <> Js.val (fst (angle.line_origin Geometry.line_diagonal))
              \/ Js.val (snd (angle.line_end Geometry.line_diagonal))
                 <> Js.val (snd (angle.line_origin Geometry.line_diagonal)))
    by (left; simpl; lra).
  exact (conj H (ofLineInDegrees_direction Geometry.line_diagonal H)).
Defined.

Section Reversal.
Import Js angle Geometry.

(** Two angles of [[0, 2 PI)], the second turned by a half turn, that
    are directions of one vector are a half turn apart. *)
Lemma half_turn_apart a b :
  0 <= a < 2 * PI -> 0 <= b < 2 * PI ->
  sin (a - (b + PI)) = 0 -> 0 < cos (a - (b + PI)) ->
  b = a - PI \/ b = a + PI.
Proof.
  intros Ha Hb Hsin Hcos. pose proof PI_RGT_0 as Hpi.
  destruct (sin_eq_0_0 _ Hsin) as [k Hk].
  assert (Hlo : IZR (-3) < IZR k).
  { apply (Rmult_lt_reg_r PI); [exact Hpi |]. rewrite <- Hk. lra. }
  assert (Hhi : IZR k < IZR 1).
  { apply (Rmult_lt_reg_r PI); [exact Hpi |]. rewrite <- Hk. lra. }
  apply lt_IZR in Hlo, Hhi.
  assert (Hcases : k = (-2)%Z \/ k = (-1)%Z \/ k = 0%Z) by lia.
  destruct Hcases as [-> | [-> | ->]].
  - right. lra.
  - exfalso. rewrite Hk in Hcos.
    replace (-1 * PI) with (- PI) in Hcos by ring.
    rewrite cos_neg, cos_PI in Hcos. lra.
  - left. lra.
Qed.

Lemma reversed_line_angle line :
  val (fst (line_end line)) <> val (fst (line_origin line))
  \/ val (snd (line_end line)) <> val (snd (line_origin line)) ->
  val (ofLineInDegrees (reversed line)) = val (ofLineInDegrees line) - 180
  \/ val (ofLineInDegrees (reversed line)) = val (ofLineInDegrees line) + 180.
Proof.
  intros Hdiff. pose proof PI_RGT_0 as Hpi.
  pose proof (points_along_line line Hdiff) as Ha.
  assert (Hdiff' :
            val (fst (line_end (reversed line)))
            <> val (fst (line_origin (reversed line)))
            \/ val (snd (line_end (reversed line)))
               <> val (snd (line_origin (reversed line)))).
  { unfold reversed. cbn [line_origin line_end].
    destruct Hdiff as [H | H]; [left | right]; intros E; apply H;
      now symmetry. }
  pose proof (points_along_line (reversed line) Hdiff') as Hb.
  pose proof (val_ofLineInDegrees_range line) as Ra.
  pose proof (val_ofLineInDegrees_range (reversed line)) as Rb.
  rewrite val_toRadians_small in Ha, Hb by assumption.
  set (alpha := val (ofLineInDegrees line)) in *.
  set (beta := val (ofLineInDegrees (reversed line))) in *.
  unfold reversed in Hb. cbn [line_origin line_end] in Hb.
  set (x := val (fst (line_end line)) - val (fst (line_origin line))) in *.
  set (y := val (snd (line_end line)) - val (snd (line_origin line))) in *.
  assert (Hb' : points_along (beta * PI / 180 + PI) x y).
  { destruct Hb as [Hcol Hdot]. unfold points_along.
    rewrite neg_sin, neg_cos. unfold x, y. lra. }
  destruct (points_along_unique _ _ _ _ Ha Hb') as [Hsin Hcos].
  assert (Ea : 0 <= alpha * PI / 180 < 2 * PI).
  { replace (alpha * PI / 180) with (alpha * (PI / 180)) by (field; lra).
    replace (2 * PI) with (360 * (PI / 180)) by (field; lra).
    split; [apply Rmult_le_pos; lra | apply Rmult_lt_compat_r; lra]. }
  assert (Eb : 0 <= beta * PI / 180 < 2 * PI).
  { replace (beta * PI / 180) with (beta * (PI / 180)) by (field; lra).
    replace (2 * PI) with (360 * (PI / 180)) by (field; lra).
    split; [apply Rmult_le_pos; lra | apply Rmult_lt_compat_r; lra]. }
  destruct (half_turn_apart _ _ Ea Eb Hsin Hcos) as [H | H]; [left | right];
    apply (Rmult_eq_reg_r (PI / 180)); try lra.
Qed.


End Reversal.


(** ** The angle of a line, characterised *)

Section LineAngle.
Import Js angle Geometry.

(** Two angles of [[0, 2 PI)] that are directions of one vector are
    equal. *)
Lemma same_direction_eq a b :
  0 <= a < 2 * PI -> 0 <= b < 2 * PI ->
  sin (a - b) = 0 -> 0 < cos (a - b) -> a = b.
Proof.
  intros Ha Hb Hsin Hcos. pose proof PI_RGT_0 as Hpi.
  destruct (sin_eq_0_0 _ Hsin) as [k Hk].
  assert (Hlo : IZR (-2) < IZR k).
  { apply (Rmult_lt_reg_r PI); [exact Hpi |]. rewrite <- Hk. lra. }
  assert (Hhi : IZR k < IZR 2).
  { apply (Rmult_lt_reg_r PI); [exact Hpi |]. rewrite <- Hk. lra. }
  apply lt_IZR in Hlo, Hhi.
  assert (Hcases : k = (-1)%Z \/ k = 0%Z \/ k = 1%Z) by lia.
  destruct Hcases as [-> | [-> | ->]].
  - exfalso. rewrite Hk in Hcos.
    replace (-1 * PI) with (- PI) in Hcos by ring.
    rewrite cos_neg, cos_PI in Hcos. lra.
  - lra.
  - exfalso. rewrite Hk in Hcos.
    replace (1 * PI) with PI in Hcos by ring.
    rewrite cos_PI in Hcos. lra.
Qed.

Lemma degrees_in_radians_range g :
  0 <= g < 360 -> 0 <= g * PI / 180 < 2 * PI.
Proof.
  intros Hg. pose proof PI_RGT_0 as Hpi.
  replace (g * PI / 180) with (g * (PI / 180)) by (field; lra).
  replace (2 * PI) with (360 * (PI / 180)) by (field; lra).
  split; [apply Rmult_le_pos; lra | apply Rmult_lt_compat_r; lra].
Qed.

Lemma line_angle_iff line g :
  val (fst (line_end line)) <> val (fst (line_origin line))
  \/ val (snd (line_end line)) <> val (snd (line_origin line)) ->
  0 <= g < 360 ->
  val (ofLineInDegrees line) = g
  <-> points_along (g * PI / 180)
        (val (fst (line_end line)) - val (fst (line_origin line)))
        (val (snd (line_end line)) - val (snd (line_origin line))).
Proof.
  intros Hdiff Hg. pose proof PI_RGT_0 as Hpi.
  pose proof (points_along_line line Hdiff) as Ha.
  pose proof (val_ofLineInDegrees_range line) as Ra.
  rewrite val_toRadians_small in Ha by assumption.
  split.
  - intros <-. exact Ha.
  - intros Hb.
    destruct (points_along_unique _ _ _ _ Ha Hb) as [Hsin Hcos].
    apply (Rmult_eq_reg_r (PI / 180)); [| lra].
    replace (val (ofLineInDegrees line) * (PI / 180))
      with (val (ofLineInDegrees line) * PI / 180) by (field; lra).
    replace (g * (PI / 180)) with (g * PI / 180) by (field; lra).
    apply same_direction_eq; try assumption;
      now apply degrees_in_radians_range.
Qed.


Lemma points_along_scale c theta x y :
  0 < c -> points_along theta (c * x) (c * y) -> points_along theta x y.
Proof.
  intros Hc [Hcol Hdot]. split.
  - apply (Rmult_eq_reg_l c); lra.
  - apply (Rmult_lt_reg_l c); lra.
Qed.


Lemma points_along_0 x y : points_along 0 x y <-> (y = 0 /\ 0 < x).
Proof. unfold points_along. rewrite sin_0, cos_0. lra. Qed.

Lemma points_along_90 x y :
  points_along (90 * PI / 180) x y <-> (x = 0 /\ 0 < y).
Proof.
  unfold points_along.
  replace (90 * PI / 180) with (PI / 2) by field.
  rewrite sin_PI2, cos_PI2. lra.
Qed.

Lemma points_along_180 x y :
  points_along (180 * PI / 180) x y <-> (y = 0 /\ x < 0).
Proof.
  unfold points_along.
  replace (180 * PI / 180) with PI by field.
  rewrite sin_PI, cos_PI. lra.
Qed.

Lemma points_along_270 x y :
  points_along (270 * PI / 180) x y <-> (x = 0 /\ y < 0).
Proof.
  unfold points_along.
  replace (270 * PI / 180) with (3 * (PI / 2)) by field.
  rewrite sin_3PI2, cos_3PI2. lra.
Qed.


End LineAngle.



